(** * page-metadata-parser-ts: the rule engine of [src/index.ts] in Rocq

    A shallow embedding of [getProvider], [buildRuleSet], the built-in
    [metadataRuleSets] table and [getMetadata], followed by the properties
    of the specification that were checked against them.

    Conventions of the embedding.
    - A JavaScript string is a [string]: a sequence of code units, each
      below 256.  The regular expressions of the source are ASCII-only,
      and [trim] removes the white space of that range.
    - A score is a [Z].  The source computes with JavaScript numbers; the
      integers below 2^53 are exact there.
    - [null] and [undefined] are both [None].
    - A call that throws is [None] in the [option]-valued primitives and
      [Threw] in the outcome of an evaluator.
    - The DOM and [URL] are not part of the repository: a document is the
      function that answers [querySelectorAll], an element is a record of
      what the extractors read, and the two [URL] accessors are parameters.
    - The loop of lines 27-52 is modelled where it runs to its end: the
      selectors are ones the DOM accepts, and the extractors and scorers
      return.  Exceptions are modelled from line 54 on, where the default
      function and the processors may throw. *)

From Stdlib Require Import List String Ascii ZArith Bool Lia.
Import ListNotations.

Open Scope string_scope.
Open Scope Z_scope.

(** ** JavaScript string primitives *)

Module JsString.

Definition isDigit (c : ascii) : bool :=
  let n := nat_of_ascii c in (48 <=? n)%nat && (n <=? 57)%nat.

(** The class [[a-zA-Z0-9]]. *)
Definition isAlnum (c : ascii) : bool :=
  let n := nat_of_ascii c in
  ((97 <=? n)%nat && (n <=? 122)%nat)
  || ((65 <=? n)%nat && (n <=? 90)%nat)
  || isDigit c.

(** White space and line terminators below 256: TAB, LF, VT, FF, CR,
    SP and NBSP. *)
Definition isSpace (c : ascii) : bool :=
  let n := nat_of_ascii c in
  ((9 <=? n)%nat && (n <=? 13)%nat) || (n =? 32)%nat || (n =? 160)%nat.

Fixpoint trimStart (s : string) : string :=
  match s with
  | String c r => if isSpace c then trimStart r else s
  | EmptyString => EmptyString
  end.

Fixpoint trimEnd (s : string) : string :=
  match s with
  | String c r =>
      match trimEnd r with
      | EmptyString => if isSpace c then EmptyString else String c EmptyString
      | r' => String c r'
      end
  | EmptyString => EmptyString
  end.

(** [String.prototype.trim]. *)
Definition trim (s : string) : string := trimEnd (trimStart s).

(** [s.split(c)] for a one-character separator: never empty, and the
    singleton of the empty string for the empty string. *)
Fixpoint split (c : ascii) (s : string) : list string :=
  match s with
  | EmptyString => [EmptyString]
  | String a r =>
      if Ascii.eqb a c then EmptyString :: split c r
      else match split c r with
           | h :: t => String a h :: t
           | [] => [String a EmptyString]
           end
  end.

(** [l.join(sep)]. *)
Fixpoint join (sep : string) (l : list string) : string :=
  match l with
  | [] => EmptyString
  | [x] => x
  | x :: r => x ++ sep ++ join sep r
  end.

(** [l.slice(0, -1)]: all but the last element. *)
Definition sliceInit (l : list string) : list string := removelast l.

Fixpoint drop (n : nat) (s : string) : string :=
  match n, s with
  | S k, String _ r => drop k r
  | _, _ => s
  end.

(** [s.replace(pat, rep)] for a string pattern: the first occurrence
    only. *)
Fixpoint replaceFirst (pat rep s : string) : string :=
  if prefix pat s then rep ++ drop (String.length pat) s
  else match s with
       | String c r => String c (replaceFirst pat rep r)
       | EmptyString => EmptyString
       end.

Fixpoint dropWhile (p : ascii -> bool) (s : string) : string :=
  match s with
  | String c r => if p c then dropWhile p r else s
  | EmptyString => EmptyString
  end.

Fixpoint takeWhile (p : ascii -> bool) (s : string) : string :=
  match s with
  | String c r => if p c then String c (takeWhile p r) else EmptyString
  | EmptyString => EmptyString
  end.

(** A match of [/www[a-zA-Z0-9]*\./] that starts at the head of [s];
    the result is what follows the match.  The class is greedy and the
    dot is outside it, so only the longest run can be followed by the
    dot. *)
Definition matchWww (s : string) : option string :=
  if prefix "www" s then
    match dropWhile isAlnum (drop 3 s) with
    | String "." rest => Some rest
    | _ => None
    end
  else None.

(** [s.replace(/www[a-zA-Z0-9]*\./, '')]: the leftmost match is
    removed; the expression has no [g] flag and no anchor. *)
Fixpoint replaceWww (s : string) : string :=
  match matchWww s with
  | Some rest => rest
  | None =>
      match s with
      | String c r => String c (replaceWww r)
      | EmptyString => EmptyString
      end
  end.

(** [s.match(/\d+/g)] followed by [[0]]: the first maximal run of
    digits, [None] where [match] returns [null]. *)
Definition firstDigits (s : string) : option string :=
  match takeWhile isDigit (dropWhile (fun c => negb (isDigit c)) s) with
  | EmptyString => None
  | d => Some d
  end.

Fixpoint numberAcc (acc : Z) (s : string) : Z :=
  match s with
  | String c r => numberAcc (10 * acc + Z.of_nat (nat_of_ascii c) - 48) r
  | EmptyString => acc
  end.

(** [Number(d)] for a string of decimal digits: the decimal value,
    which is what JavaScript computes up to 2^53 and rounds beyond. *)
Definition Number (d : string) : Z := numberAcc 0 d.

(** Truthiness of a string: only the empty one is falsy. *)
Definition truthy (s : string) : bool :=
  match s with EmptyString => false | _ => true end.

End JsString.

(** ** Helpers of the source *)

(** [getProvider], lines 13-20. *)
Definition getProvider (host : string) : string :=
  JsString.join " "
    (JsString.sliceInit
       (JsString.split "."
          (JsString.replaceFirst ".co." "."
             (JsString.replaceWww host)))).

(** ** Data model, lines 1 and 74-81 *)

(** What the extractors and scorers read of a DOM element. *)
Record Element := {
  tagName : string;
  attributes : list (string * string);
  text : option string
}.

(** [element.getAttribute(name)]: [null] when the attribute is missing. *)
Fixpoint lookupAttribute (name : string) (l : list (string * string))
  : option string :=
  match l with
  | [] => None
  | (k, v) :: r => if String.eqb k name then Some v else lookupAttribute name r
  end.

Definition getAttribute (element : Element) (name : string) : option string :=
  lookupAttribute name (attributes element).

(** A document answers [querySelectorAll(query)] with the matching
    elements in document order.  Selector matching belongs to the DOM. *)
Record Document := { querySelectorAll : string -> list Element }.

Record Context := { url : string }.

Record Location := { href : string }.

(** The value threaded through the processors: a string, or the array
    of strings that the keywords processor produces. *)
Inductive Value :=
| VStr (s : string)
| VList (l : list string).

Definition Handler := Element -> option string.
Definition RuleEntry := (string * Handler)%type.
Definition Scorer := Element -> Z -> option Z.
Definition DefaultValue := Context -> option string.
Definition Processor := Value -> Context -> option Value.

Record RuleSet := {
  rules : list RuleEntry;
  scorers : option (list Scorer);
  defaultValue : option DefaultValue;
  processors : option (list Processor)
}.

Definition RuleSets := list (string * RuleSet).

(** What an evaluator call does: throw, return [undefined], or return a
    value. *)
Inductive Outcome :=
| Threw
| Undefined
| Returned (v : Value).

(** ** The rule engine: [buildRuleSet], lines 22-72 *)

(** The variables [maxScore] and [maxValue] of lines 24-25. *)
Record Best := { maxScore : Z; maxValue : option string }.

Definition initialBest : Best := {| maxScore := 0; maxValue := None |}.

(** Lines 38-42: a truthy [newScore] replaces [score]; [undefined] and
    [0] are falsy. *)
Definition scorerStep (element : Element) (score : Z) (scorer : Scorer) : Z :=
  match scorer element score with
  | Some newScore => if newScore =? 0 then score else newScore
  | None => score
  end.

(** Lines 36-44. *)
Definition applyScorers (ruleSet : RuleSet) (element : Element) (score : Z) : Z :=
  match scorers ruleSet with
  | Some l => fold_left (scorerStep element) l score
  | None => score
  end.

(** Line 34. *)
Definition baseScore (ruleSet : RuleSet) (currRule : nat) : Z :=
  Z.of_nat (List.length (rules ruleSet)) - Z.of_nat currRule.

(** Lines 34-49: the body of the loop over the elements of one rule. *)
Definition visit (ruleSet : RuleSet) (currRule : nat) (handler : Handler)
    (best : Best) (element : Element) : Best :=
  let score := applyScorers ruleSet element (baseScore ruleSet currRule) in
  if score >? maxScore best
  then {| maxScore := score; maxValue := handler element |}
  else best.

(** Lines 28-51: one iteration of the loop over the rules. *)
Definition ruleStep (ruleSet : RuleSet) (doc : Document) (currRule : nat)
    (entry : RuleEntry) (best : Best) : Best :=
  let '(query, handler) := entry in
  let elements := querySelectorAll doc query in
  if (0 <? List.length elements)%nat
  then fold_left (visit ruleSet currRule handler) elements best
  else best.

(** Lines 27-52: the loop over [ruleSet.rules], from [currRule] on;
    [todo] holds the entries at the indices [currRule], [currRule + 1],
    and so on. *)
Fixpoint ruleLoop (ruleSet : RuleSet) (doc : Document) (todo : list RuleEntry)
    (currRule : nat) (best : Best) : Best :=
  match todo with
  | [] => best
  | entry :: rest =>
      ruleLoop ruleSet doc rest (S currRule)
        (ruleStep ruleSet doc currRule entry best)
  end.

(** The state after line 52. *)
Definition selectBest (ruleSet : RuleSet) (doc : Document) : Best :=
  ruleLoop ruleSet doc (rules ruleSet) 0 initialBest.

(** Truthiness of [maxValue]. *)
Definition truthyValue (v : option string) : bool :=
  match v with
  | Some s => JsString.truthy s
  | None => false
  end.

(** Lines 54-56; [None] when the default function throws. *)
Definition withDefault (ruleSet : RuleSet) (context : Context)
    (v : option string) : option (option string) :=
  match truthyValue v, defaultValue ruleSet with
  | false, Some f =>
      match f context with
      | Some d => Some (Some d)
      | None => None
      end
  | _, _ => Some v
  end.

(** Lines 59-63; [None] when a processor throws. *)
Fixpoint runProcessors (l : list Processor) (context : Context) (v : Value)
  : option Value :=
  match l with
  | [] => Some v
  | processor :: rest =>
      match processor v context with
      | Some v' => runProcessors rest context v'
      | None => None
      end
  end.

(** Lines 65-67. *)
Definition trimValue (v : Value) : Value :=
  match v with
  | VStr s => VStr (JsString.trim s)
  | VList _ => v
  end.

(** Lines 58-70. *)
Definition finish (ruleSet : RuleSet) (context : Context) (v : option string)
  : Outcome :=
  match v with
  | Some s =>
      if JsString.truthy s then
        match
          match processors ruleSet with
          | Some l => runProcessors l context (VStr s)
          | None => Some (VStr s)
          end
        with
        | Some v' => Returned (trimValue v')
        | None => Threw
        end
      else Undefined
  | None => Undefined
  end.

(** [buildRuleSet(ruleSet)(doc, context)]. *)
Definition buildRuleSet (ruleSet : RuleSet) (doc : Document) (context : Context)
  : Outcome :=
  match withDefault ruleSet context (maxValue (selectBest ruleSet doc)) with
  | Some v => finish ruleSet context v
  | None => Threw
  end.

(** ** The built-in table, lines 5-11 and 83-189 *)

Section BuiltIn.

(** [new URL(relative, base).href] and [new URL(url).host]; [None] when
    the constructor throws. *)
Variable URL_href : string -> string -> option string.
Variable URL_host : string -> option string.

(** Lines 5-7. *)
Definition makeUrlAbsolute (base relative : string) : option string :=
  URL_href relative base.

(** Lines 9-11. *)
Definition parseUrl (u : string) : option string := URL_host u.

(** The string a value is converted to where a string is expected. *)
Definition toString (v : Value) : string :=
  match v with
  | VStr s => s
  | VList l => JsString.join "," l
  end.

Definition attr (name : string) : Handler :=
  fun element => getAttribute element name.

(** The [text] property of a title element, line 151. *)
Definition titleText : Handler := fun element => text element.

(** Lines 105-114. *)
Definition iconScorer : Scorer := fun element score =>
  match getAttribute element "sizes" with
  | Some sizes =>
      if JsString.truthy sizes then
        match JsString.firstDigits sizes with
        | Some d => Some (JsString.Number d)
        | None => None
        end
      else None
  | None => None
  end.

(** Lines 118, 132 and 179. *)
Definition absoluteUrlProcessor : Processor := fun v context =>
  match makeUrlAbsolute (url context) (toString v) with
  | Some u => Some (VStr u)
  | None => None
  end.

(** Line 141; an array has no [split]. *)
Definition keywordsProcessor : Processor := fun v context =>
  match v with
  | VStr keywords =>
      Some (VList (map JsString.trim (JsString.split "," keywords)))
  | VList _ => None
  end.

(** Line 161; [split] never returns an empty array. *)
Definition languageProcessor : Processor := fun v context =>
  match v with
  | VStr language => Some (VStr (hd EmptyString (JsString.split "-" language)))
  | VList _ => None
  end.

(** Line 187. *)
Definition providerDefault : DefaultValue := fun context =>
  match parseUrl (url context) with
  | Some host => Some (getProvider host)
  | None => None
  end.

(** The selectors of the table carry double quotes; they are
    spelled here from their parts: [sel "meta" "name" "hdl"] is the
    selector [meta[name=<dq>hdl<dq>]], and [selI] adds the flag [i]
    before the closing bracket. *)
Definition dq : string := String (ascii_of_nat 34) EmptyString.

Definition sel (tag name value : string) : string :=
  tag ++ "[" ++ name ++ "=" ++ dq ++ value ++ dq ++ "]".

Definition selI (tag name value : string) : string :=
  tag ++ "[" ++ name ++ "=" ++ dq ++ value ++ dq ++ " i]".

(** Lines 84-89. *)
Definition description : RuleSet := {|
  rules := [ (sel "meta" "property" "og:description", attr "content");
             (selI "meta" "name" "description", attr "content") ];
  scorers := None;
  defaultValue := None;
  processors := None |}.

(** Lines 91-120. *)
Definition icon : RuleSet := {|
  rules := [ (sel "link" "rel" "apple-touch-icon", attr "href");
             (sel "link" "rel" "apple-touch-icon-precomposed", attr "href");
             (selI "link" "rel" "icon", attr "href");
             (sel "link" "rel" "fluid-icon", attr "href");
             (sel "link" "rel" "shortcut icon", attr "href");
             (sel "link" "rel" "Shortcut Icon", attr "href");
             (sel "link" "rel" "mask-icon", attr "href") ];
  scorers := Some [ iconScorer ];
  defaultValue := Some (fun context => Some "favicon.ico");
  processors := Some [ absoluteUrlProcessor ] |}.

(** Lines 122-134. *)
Definition image : RuleSet := {|
  rules := [ (sel "meta" "property" "og:image:secure_url", attr "content");
             (sel "meta" "property" "og:image:url", attr "content");
             (sel "meta" "property" "og:image", attr "content");
             (sel "meta" "name" "twitter:image", attr "content");
             (sel "meta" "property" "twitter:image", attr "content");
             (sel "meta" "name" "thumbnail", attr "content") ];
  scorers := None;
  defaultValue := None;
  processors := Some [ absoluteUrlProcessor ] |}.

(** Lines 136-143. *)
Definition keywords : RuleSet := {|
  rules := [ (selI "meta" "name" "keywords", attr "content") ];
  scorers := None;
  defaultValue := None;
  processors := Some [ keywordsProcessor ] |}.

(** Lines 145-153. *)
Definition title : RuleSet := {|
  rules := [ (sel "meta" "property" "og:title", attr "content");
             (sel "meta" "name" "twitter:title", attr "content");
             (sel "meta" "property" "twitter:title", attr "content");
             (sel "meta" "name" "hdl", attr "content");
             ("title", titleText) ];
  scorers := None;
  defaultValue := None;
  processors := None |}.

(** Lines 155-163. *)
Definition language : RuleSet := {|
  rules := [ ("html[lang]", attr "lang");
             (selI "meta" "name" "language", attr "content") ];
  scorers := None;
  defaultValue := None;
  processors := Some [ languageProcessor ] |}.

(** Lines 165-169. *)
Definition type : RuleSet := {|
  rules := [ (sel "meta" "property" "og:type", attr "content") ];
  scorers := None;
  defaultValue := None;
  processors := None |}.

(** Lines 171-181. *)
Definition urlRuleSet : RuleSet := {|
  rules := [ ("a.amp-canurl", attr "href");
             (sel "link" "rel" "canonical", attr "href");
             (sel "meta" "property" "og:url", attr "content") ];
  scorers := None;
  defaultValue := Some (fun context => Some (url context));
  processors := Some [ absoluteUrlProcessor ] |}.

(** Lines 183-188. *)
Definition provider : RuleSet := {|
  rules := [ (sel "meta" "property" "og:site_name", attr "content") ];
  scorers := None;
  defaultValue := Some providerDefault;
  processors := None |}.

(** Lines 83-189, in the order of declaration, which is the order of
    [Object.keys]. *)
Definition metadataRuleSets : RuleSets :=
  [ ("description", description);
    ("icon", icon);
    ("image", image);
    ("keywords", keywords);
    ("title", title);
    ("language", language);
    ("type", type);
    ("url", urlRuleSet);
    ("provider", provider) ].

(** ** The orchestrator: [getMetadata], lines 191-207 *)

(** Line 203, [metadata[ruleSetKey] = value] on an object literal: the
    assignment creates the own property [ruleSetKey], except for the key
    [__proto__], which reaches the setter of [Object.prototype] and
    leaves the record without an own property of that name. *)
Definition assign (ruleSetKey : string) (field : option Value)
    (record : list (string * option Value)) : list (string * option Value) :=
  if String.eqb ruleSetKey "__proto__" then record
  else (ruleSetKey, field) :: record.

(** Lines 199-204: the fields are evaluated in key order; a throwing
    evaluator ends the call.  [None] in the record is [undefined]. *)
Fixpoint evaluateAll (ruleSets : RuleSets) (doc : Document) (context : Context)
  : option (list (string * option Value)) :=
  match ruleSets with
  | [] => Some []
  | (ruleSetKey, ruleSet) :: rest =>
      match buildRuleSet ruleSet doc context with
      | Threw => None
      | Undefined =>
          option_map (assign ruleSetKey None) (evaluateAll rest doc context)
      | Returned v =>
          option_map (assign ruleSetKey (Some v)) (evaluateAll rest doc context)
      end
  end.

Definition getMetadata (doc : Document) (location : Location)
    (customRuleSets : option RuleSets) : option (list (string * option Value)) :=
  let context := {| url := href location |} in
  let ruleSets :=
    match customRuleSets with
    | Some custom => custom
    | None => metadataRuleSets
    end in
  evaluateAll ruleSets doc context.

End BuiltIn.

(** ** Vocabulary of the statements *)

(** [hasChar c s]: the character [c] occurs in [s]. *)
Fixpoint hasChar (c : ascii) (s : string) : bool :=
  match s with
  | String a r => Ascii.eqb a c || hasChar c r
  | EmptyString => false
  end.

(** A candidate is an element together with the index of the rule entry
    whose selector matched it and the extractor of that entry. *)
Record Candidate := {
  candRule : nat;
  candHandler : Handler;
  candElement : Element
}.

(** The candidates of the entry at index [i], in document order. *)
Definition candidatesAt (ruleSet : RuleSet) (doc : Document) (i : nat)
  : list Candidate :=
  match nth_error (rules ruleSet) i with
  | Some (query, handler) =>
      map (fun element =>
             {| candRule := i; candHandler := handler; candElement := element |})
          (querySelectorAll doc query)
  | None => []
  end.

(** All candidates: entry by entry in declared order, and in document
    order within an entry. *)
Definition candidates (ruleSet : RuleSet) (doc : Document) : list Candidate :=
  flat_map (candidatesAt ruleSet doc) (seq 0 (List.length (rules ruleSet))).

(** The final score of a candidate and the value its extractor gives. *)
Definition candScore (ruleSet : RuleSet) (c : Candidate) : Z :=
  applyScorers ruleSet (candElement c) (baseScore ruleSet (candRule c)).

Definition candValue (c : Candidate) : option string :=
  candHandler c (candElement c).

(** The loop body at a candidate. *)
Definition consider (ruleSet : RuleSet) (best : Best) (c : Candidate) : Best :=
  visit ruleSet (candRule c) (candHandler c) best (candElement c).

(** The state in which the engine reaches the candidate that follows
    [pre]. *)
Definition bestAfter (ruleSet : RuleSet) (pre : list Candidate) : Best :=
  fold_left (consider ruleSet) pre initialBest.

(** The head of a string is not white space. *)
Definition headOk (s : string) : bool :=
  match s with
  | String c _ => negb (JsString.isSpace c)
  | EmptyString => true
  end.

(** Every character of [s] satisfies [p]. *)
Fixpoint allChars (p : ascii -> bool) (s : string) : bool :=
  match s with
  | String a r => p a && allChars p r
  | EmptyString => true
  end.

(** [hasSub pat s]: [pat] occurs in [s] as a substring. *)
Fixpoint hasSub (pat s : string) : bool :=
  prefix pat s
  || match s with
     | String _ r => hasSub pat r
     | EmptyString => false
     end.

(** The number of occurrences of [c] in [s]. *)
Fixpoint countChar (c : ascii) (s : string) : nat :=
  match s with
  | String a r => (if Ascii.eqb a c then 1 else 0) + countChar c r
  | EmptyString => 0
  end.

(** The outcome that a field of the metadata record stands for. *)
Definition outcomeOf (field : option Value) : Outcome :=
  match field with
  | Some v => Returned v
  | None => Undefined
  end.

(** The table that [getMetadata] evaluates, line 197. *)
Definition tableOf (builtIn : RuleSets) (customRuleSets : option RuleSets)
  : RuleSets :=
  match customRuleSets with
  | Some custom => custom
  | None => builtIn
  end.

(** A field of the record is the outcome of the rule set under its
    key. *)
Definition fieldOf (doc : Document) (context : Context)
    (entry : string * RuleSet) (field : string * option Value) : Prop :=
  fst field = fst entry
  /\ buildRuleSet (snd entry) doc context = outcomeOf (snd field).

(** The entries of a table whose key becomes an own property of the
    record: all but the key [__proto__]. *)
Definition stored (table : RuleSets) : RuleSets :=
  filter (fun entry => negb (String.eqb (fst entry) "__proto__")) table.

(** ** Sample data of the examples *)

Module Sample.

Definition element (attrs : list (string * string)) : Element :=
  {| tagName := "meta"; attributes := attrs; text := None |}.

(** An element without a [content] attribute and one with it. *)
Definition bare : Element := element [("name", "first")].
Definition filled : Element := element [("name", "second"); ("content", "v")].

(** [bare] answers the selector [meta[name=first]] and [filled] the
    selector [meta[content]]. *)
Definition page : Document :=
  {| querySelectorAll := fun query =>
       if String.eqb query "meta[name=first]" then [bare]
       else if String.eqb query "meta[content]" then [filled]
       else [] |}.

Definition content : Handler := fun e => getAttribute e "content".

Definition twoRules : RuleSet :=
  {| rules := [ ("meta[name=first]", content); ("meta[content]", content) ];
     scorers := None;
     defaultValue := None;
     processors := None |}.

(** A scorer that returns zero for every element. *)
Definition zeroScorer : Scorer := fun _ _ => Some 0.

Definition zeroScored : RuleSet :=
  {| rules := [ ("meta[content]", content) ];
     scorers := Some [ zeroScorer ];
     defaultValue := None;
     processors := None |}.

Definition here : Context := {| url := "https://a.com/x/y" |}.

(** A second element with a [content] attribute, after [filled] in a
    page where both answer [meta[content]]. *)
Definition other : Element := element [("name", "third"); ("content", "w")].

Definition tiePage : Document :=
  {| querySelectorAll := fun query =>
       if String.eqb query "meta[content]" then [filled; other] else [] |}.

Definition oneRule : RuleSet :=
  {| rules := [ ("meta[content]", content) ];
     scorers := None;
     defaultValue := None;
     processors := None |}.

(** Two icon links, the small one first in the document. *)
Definition small : Element :=
  {| tagName := "link"; text := None;
     attributes := [("rel", "icon"); ("href", "/small.png"); ("sizes", "16x16")] |}.

Definition large : Element :=
  {| tagName := "link"; text := None;
     attributes := [("rel", "icon"); ("href", "/large.png"); ("sizes", "32x32")] |}.

Definition iconPage : Document :=
  {| querySelectorAll := fun query =>
       if String.eqb query (selI "link" "rel" "icon") then [small; large]
       else [] |}.

(** Stand-ins for the two [URL] accessors, enough for the pages
    above: an absolute [https] reference is kept and a path is put
    after the origin [https://a.com]. *)
Definition resolve (relative base : string) : option string :=
  if prefix "https://" relative then Some relative
  else Some ("https://a.com" ++ relative).

Definition host (u : string) : option string := Some "a.com".

(** A [URL] constructor that accepts only [https] bases. *)
Definition strictResolve (relative base : string) : option string :=
  if prefix "https://" base then resolve relative base else None.



(** An element whose [content] is white space only. *)
Definition blank : Element := element [("name", "fourth"); ("content", "   ")].

Definition blankPage : Document :=
  {| querySelectorAll := fun query =>
       if String.eqb query "meta[content]" then [blank] else [] |}.

(** A field with a default that is never needed on [page]. *)
Definition withFallback : RuleSet :=
  {| rules := [ ("meta[content]", content) ];
     scorers := None;
     defaultValue := Some (fun _ => Some "fallback");
     processors := None |}.

(** A scorer that gives every element the score -1. *)
Definition negativeScorer : Scorer := fun _ _ => Some (-1).

Definition negativeScored : RuleSet :=
  {| rules := [ ("meta[content]", content) ];
     scorers := Some [ negativeScorer ];
     defaultValue := None;
     processors := None |}.

(** [page] with an element added under a selector that no sample rule
    set uses. *)
Definition largerPage : Document :=
  {| querySelectorAll := fun query =>
       if String.eqb query "p" then [other] else querySelectorAll page query |}.

(** A table of two sample fields. *)
Definition customTable : RuleSets :=
  [ ("first", twoRules); ("second", oneRule) ].

(** A table with the key [__proto__] between two sample fields. *)
Definition protoTable : RuleSets :=
  [ ("first", twoRules); ("__proto__", oneRule); ("second", oneRule) ].

End Sample.

(** * Properties *)

(** ** Strings *)

Module JsStringFacts.
Import JsString.

Lemma hasChar_app c a b :
  hasChar c (a ++ b) = hasChar c a || hasChar c b.
Proof.
  induction a as [|x a IH]; simpl; [reflexivity|].
  now rewrite IH, orb_assoc.
Qed.

Lemma hasChar_drop c n s :
  hasChar c s = false -> hasChar c (drop n s) = false.
Proof.
  revert s; induction n as [|n IH]; intros [|a r]; simpl; auto.
  intros H; apply orb_false_iff in H; apply IH, H.
Qed.

Lemma hasChar_dropWhile c p s :
  hasChar c s = false -> hasChar c (dropWhile p s) = false.
Proof.
  induction s as [|a r IH]; simpl; auto.
  intros H; destruct (p a); simpl; auto.
  apply orb_false_iff in H; apply IH, H.
Qed.

Lemma matchWww_without_dot s :
  hasChar "." s = false -> matchWww s = None.
Proof.
  intros H; unfold matchWww.
  destruct (prefix "www" s); [|reflexivity].
  pose proof (hasChar_dropWhile "." isAlnum _ (hasChar_drop "." 3 s H)) as D.
  destruct (dropWhile isAlnum (drop 3 s)) as [|a rest]; [reflexivity|].
  simpl in D; apply orb_false_iff in D; destruct D as [D _].
  destruct (Ascii.eqb_spec a "."); [discriminate|].
  destruct a as [[] [] [] [] [] [] [] []]; try reflexivity; congruence.
Qed.

Lemma replaceWww_without_dot s :
  hasChar "." s = false -> replaceWww s = s.
Proof.
  induction s as [|a r IH]; intros H.
  - reflexivity.
  - cbn [replaceWww]; rewrite (matchWww_without_dot _ H).
    simpl in H; apply orb_false_iff in H; now rewrite IH.
Qed.

Lemma replaceFirst_absent c pat rep s :
  hasChar c s = false -> replaceFirst (String c pat) rep s = s.
Proof.
  induction s as [|a r IH]; intros H; simpl in *.
  - reflexivity.
  - apply orb_false_iff in H; destruct H as [Ha Hr].
    destruct (ascii_dec c a) as [->|_].
    + now rewrite Ascii.eqb_refl in Ha.
    + now rewrite IH.
Qed.

Lemma split_absent c s :
  hasChar c s = false -> split c s = [s].
Proof.
  induction s as [|a r IH]; intros H; simpl in *.
  - reflexivity.
  - apply orb_false_iff in H; destruct H as [Ha Hr].
    now rewrite Ha, IH.
Qed.

(** The head of [split] is what precedes the first separator. *)
Lemma split_head c a b :
  hasChar c a = false ->
  hd EmptyString (split c (a ++ String c b)) = a.
Proof.
  induction a as [|x a IH]; intros H; simpl in *.
  - now rewrite Ascii.eqb_refl.
  - apply orb_false_iff in H; destruct H as [Hx Ha].
    rewrite Hx. specialize (IH Ha).
    destruct (split c (a ++ String c b)); simpl in *; now subst.
Qed.

End JsStringFacts.

(** ** The loop as a fold over the candidates *)

Section EngineFacts.

Variable ruleSet : RuleSet.
Variable doc : Document.

Lemma visit_consider i handler best elements :
  fold_left (visit ruleSet i handler) elements best =
  fold_left (consider ruleSet)
    (map (fun element =>
            {| candRule := i; candHandler := handler; candElement := element |})
         elements) best.
Proof.
  revert best; induction elements as [|e l IH]; intros best; simpl.
  - reflexivity.
  - now rewrite IH.
Qed.

Lemma ruleStep_candidates i entry best :
  nth_error (rules ruleSet) i = Some entry ->
  ruleStep ruleSet doc i entry best =
  fold_left (consider ruleSet) (candidatesAt ruleSet doc i) best.
Proof.
  intros H; unfold ruleStep, candidatesAt; rewrite H.
  destruct entry as [query handler].
  destruct (querySelectorAll doc query) as [|e l] eqn:E.
  - reflexivity.
  - cbn [List.length Nat.ltb Nat.leb]. apply visit_consider.
Qed.

Lemma ruleLoop_candidates todo k best :
  (forall j, nth_error todo j = nth_error (rules ruleSet) (k + j)) ->
  ruleLoop ruleSet doc todo k best =
  fold_left (consider ruleSet)
    (flat_map (candidatesAt ruleSet doc) (seq k (List.length todo))) best.
Proof.
  revert k best; induction todo as [|entry rest IH]; intros k best H.
  - reflexivity.
  - cbn [ruleLoop List.length seq flat_map].
    rewrite fold_left_app.
    rewrite <- (ruleStep_candidates k entry best).
    + apply IH. intros j. specialize (H (S j)).
      now rewrite Nat.add_succ_r in H.
    + specialize (H 0%nat). now rewrite Nat.add_0_r in H.
Qed.

(** The nested loops of lines 27-52 visit exactly [candidates], in
    that order. *)
Lemma selectBest_fold :
  selectBest ruleSet doc = bestAfter ruleSet (candidates ruleSet doc).
Proof.
  unfold selectBest, bestAfter, candidates.
  now apply ruleLoop_candidates.
Qed.

Lemma consider_eq best c :
  consider ruleSet best c =
  if candScore ruleSet c >? maxScore best
  then {| maxScore := candScore ruleSet c; maxValue := candValue c |}
  else best.
Proof. reflexivity. Qed.

Lemma consider_keeps best c :
  candScore ruleSet c <= maxScore best -> consider ruleSet best c = best.
Proof.
  intros H; rewrite consider_eq.
  destruct (Z.gtb_spec (candScore ruleSet c) (maxScore best)); [lia|reflexivity].
Qed.

Lemma consider_takes best c :
  maxScore best < candScore ruleSet c ->
  consider ruleSet best c =
  {| maxScore := candScore ruleSet c; maxValue := candValue c |}.
Proof.
  intros H; rewrite consider_eq.
  destruct (Z.gtb_spec (candScore ruleSet c) (maxScore best)); [reflexivity|lia].
Qed.

(** Candidates that do not beat the incumbent leave it in place. *)
Lemma fold_keeps cs best :
  (forall c, In c cs -> candScore ruleSet c <= maxScore best) ->
  fold_left (consider ruleSet) cs best = best.
Proof.
  induction cs as [|c cs IH]; intros H; simpl.
  - reflexivity.
  - rewrite consider_keeps by (apply H; now left).
    apply IH; intros; apply H; now right.
Qed.

Lemma candidates_sound c :
  In c (candidates ruleSet doc) ->
  exists query,
    nth_error (rules ruleSet) (candRule c) = Some (query, candHandler c)
    /\ In (candElement c) (querySelectorAll doc query).
Proof.
  unfold candidates; rewrite in_flat_map.
  intros [i [_ H]]. unfold candidatesAt in H.
  destruct (nth_error (rules ruleSet) i) as [[query handler]|] eqn:E; [|easy].
  apply in_map_iff in H; destruct H as [e [<- He]].
  exists query; simpl; auto.
Qed.

Lemma candidates_complete i query handler element :
  nth_error (rules ruleSet) i = Some (query, handler) ->
  In element (querySelectorAll doc query) ->
  In {| candRule := i; candHandler := handler; candElement := element |}
     (candidates ruleSet doc).
Proof.
  intros H He. unfold candidates; rewrite in_flat_map.
  exists i; split.
  - apply in_seq. assert (i < List.length (rules ruleSet))%nat.
    { apply nth_error_Some; congruence. }
    lia.
  - unfold candidatesAt; rewrite H. now apply in_map.
Qed.

End EngineFacts.

(** ** What the loop keeps true *)

Section SelectionFacts.

Variable ruleSet : RuleSet.

(** What the loop keeps true from any state on. *)
Lemma fold_invariant cs best :
  let final := fold_left (consider ruleSet) cs best in
  maxScore best <= maxScore final
  /\ (forall c, In c cs -> candScore ruleSet c <= maxScore final)
  /\ (final = best
      \/ exists c, In c cs
                   /\ candScore ruleSet c = maxScore final
                   /\ candValue c = maxValue final
                   /\ maxScore best < candScore ruleSet c).
Proof.
  revert best; induction cs as [|c cs IH]; intros best; cbn [fold_left].
  - repeat split; [lia|intros c []|now left].
  - specialize (IH (consider ruleSet best c)).
    cbv zeta in IH. destruct IH as [Hle [Hall Hsrc]].
    set (final := fold_left (consider ruleSet) cs (consider ruleSet best c)) in *.
    rewrite consider_eq in Hle, Hsrc.
    destruct (Z.gtb_spec (candScore ruleSet c) (maxScore best)) as [Hgt|Hngt];
      cbn [maxScore] in Hle.
    + repeat split; [lia| |].
      * intros p [<-|Hp]; [lia|now apply Hall].
      * right. destruct Hsrc as [->|[p [Hp [H1 [H2 H3]]]]].
        -- exists c; repeat split; [now left|assumption].
        -- exists p; repeat split; [now right|assumption..|].
           cbn [maxScore] in H3; lia.
    + repeat split; [lia| |].
      * intros p [<-|Hp]; [lia|now apply Hall].
      * destruct Hsrc as [->|[p [Hp [H1 [H2 H3]]]]]; [now left|].
        right. exists p; repeat split; [now right|assumption..].
Qed.

Lemma candidatesAt_rule doc i c :
  In c (candidatesAt ruleSet doc i) -> candRule c = i.
Proof.
  unfold candidatesAt.
  destruct (nth_error (rules ruleSet) i) as [[q h]|]; [|intros []].
  intros H. apply in_map_iff in H. destruct H as [e [<- _]]. reflexivity.
Qed.

Lemma candidates_from doc a len c :
  In c (flat_map (candidatesAt ruleSet doc) (seq a len)) -> (a <= candRule c)%nat.
Proof.
  rewrite in_flat_map. intros [i [Hi Hc]].
  apply in_seq in Hi. apply candidatesAt_rule in Hc. lia.
Qed.

Lemma candidates_none doc a len :
  (forall j query handler,
      (a <= j < a + len)%nat ->
      nth_error (rules ruleSet) j = Some (query, handler) ->
      querySelectorAll doc query = []) ->
  flat_map (candidatesAt ruleSet doc) (seq a len) = [].
Proof.
  revert a; induction len as [|len IH]; intros a H; [reflexivity|].
  cbn [seq flat_map]. rewrite IH.
  - unfold candidatesAt.
    destruct (nth_error (rules ruleSet) a) as [[q h]|] eqn:E; [|reflexivity].
    rewrite (H a q h); [reflexivity|lia|exact E].
  - intros j q h Hj. apply H. lia.
Qed.

End SelectionFacts.

(** ** The claims about the engine *)

(** C1. When the extractor returns null for a candidate whose score
    beats the incumbent, nothing throws: the state becomes that score
    with no value, and the loop goes on from there.  Later candidates
    with a lower score are never selected, so the evaluator ends with
    what the default alone gives, and with [undefined] when the field
    has no default. *)
Theorem null_extraction_claims_slot ruleSet doc context pre c post :
  candidates ruleSet doc = (pre ++ c :: post)%list ->
  maxScore (bestAfter ruleSet pre) < candScore ruleSet c ->
  candValue c = None ->
  let claimed := {| maxScore := candScore ruleSet c; maxValue := None |} in
  bestAfter ruleSet (pre ++ [c])%list = claimed
  /\ selectBest ruleSet doc = fold_left (consider ruleSet) post claimed
  /\ ((forall p, In p post -> candScore ruleSet p < candScore ruleSet c) ->
      selectBest ruleSet doc = claimed
      /\ buildRuleSet ruleSet doc context =
           match withDefault ruleSet context None with
           | Some v => finish ruleSet context v
           | None => Threw
           end
      /\ (defaultValue ruleSet = None ->
          buildRuleSet ruleSet doc context = Undefined)).
Proof.
  intros Hsplit Hbeats Hnull claimed.
  assert (Hc : bestAfter ruleSet (pre ++ [c])%list = claimed).
  { unfold bestAfter; rewrite fold_left_app; cbn [fold_left].
    rewrite consider_takes by exact Hbeats. now rewrite Hnull. }
  assert (Hrun : selectBest ruleSet doc = fold_left (consider ruleSet) post claimed).
  { rewrite selectBest_fold, Hsplit.
    change (pre ++ c :: post)%list with (pre ++ [c] ++ post)%list.
    rewrite app_assoc. unfold bestAfter in *.
    now rewrite fold_left_app, Hc. }
  repeat split; trivial.
  - rewrite Hrun. apply fold_keeps. intros p Hp; specialize (H p Hp).
    simpl; lia.
  - unfold buildRuleSet. rewrite Hrun, fold_keeps; [reflexivity|].
    intros p Hp; specialize (H p Hp); simpl; lia.
  - intros Hdef. unfold buildRuleSet. rewrite Hrun, fold_keeps.
    + unfold withDefault; simpl; now rewrite Hdef.
    + intros p Hp; specialize (H p Hp); simpl; lia.
Qed.

Lemma null_extraction_claims_slot_example :
  selectBest Sample.twoRules Sample.page = {| maxScore := 2; maxValue := None |}
  /\ buildRuleSet Sample.twoRules Sample.page Sample.here = Undefined.
Proof.
  pose (c := {| candRule := 0; candHandler := Sample.content;
                candElement := Sample.bare |}).
  destruct (null_extraction_claims_slot Sample.twoRules Sample.page Sample.here
              [] c (skipn 1 (candidates Sample.twoRules Sample.page)))
    as [_ [_ H]].
  - reflexivity.
  - reflexivity.
  - reflexivity.
  - destruct H as [H1 [_ H3]].
    + intros p Hp; cbv in Hp.
      destruct Hp as [<-|[]]; reflexivity.
    + split; [exact H1 | apply H3; reflexivity].
Defined.

(** C2, as the specification states it, fails: a scorer that returns
    the integer zero does not replace the score, because line 40 tests
    the returned number for truthiness.  Here the scorer returns 0 for an
    element whose score so far is 1; the score stays 1 and the element is
    selected, where a score of 0 would never beat the initial maximum. *)
Lemma zero_score_does_not_replace :
  Sample.zeroScorer Sample.filled 1 = Some 0
  /\ applyScorers Sample.zeroScored Sample.filled 1 = 1
  /\ applyScorers Sample.zeroScored Sample.filled 1 <> 0
  /\ buildRuleSet Sample.zeroScored Sample.page Sample.here
     = Returned (VStr "v").
Proof. repeat split; try reflexivity. discriminate. Qed.

(** C2, amended.  The scorers run in declared order, each on the score
    left by the ones before it.  The last scorer has the final say: a
    non-zero integer it returns is the score, and when it returns zero
    or nothing the score of the preceding scorers stands.  Without
    scorers the score is the one given. *)
Theorem scorers_compose_in_order ruleSet0 ruleSet l scorer element score :
  scorers ruleSet0 = Some l ->
  scorers ruleSet = Some (l ++ [scorer])%list ->
  let before := applyScorers ruleSet0 element score in
  (l = [] -> before = score)
  /\ (forall n, scorer element before = Some n -> n <> 0 ->
      applyScorers ruleSet element score = n)
  /\ (scorer element before = Some 0 ->
      applyScorers ruleSet element score = before)
  /\ (scorer element before = None ->
      applyScorers ruleSet element score = before).
Proof.
  intros H0 H before.
  assert (E : applyScorers ruleSet element score
              = scorerStep element before scorer).
  { unfold before, applyScorers. rewrite H0, H.
    now rewrite fold_left_app. }
  repeat split.
  - intros ->. unfold before, applyScorers. now rewrite H0.
  - intros n Hn Hnz. rewrite E; unfold scorerStep; rewrite Hn.
    destruct (Z.eqb_spec n 0); [contradiction|reflexivity].
  - intros Hn. rewrite E; unfold scorerStep; now rewrite Hn.
  - intros Hn. rewrite E; unfold scorerStep; now rewrite Hn.
Qed.

Lemma scorers_compose_in_order_example :
  applyScorers Sample.zeroScored Sample.filled 1 = 1.
Proof.
  pose (none := {| rules := []; scorers := Some []; defaultValue := None;
                   processors := None |}).
  destruct (scorers_compose_in_order none Sample.zeroScored []
              Sample.zeroScorer Sample.filled 1 eq_refl eq_refl)
    as [_ [_ [H _]]].
  exact (H eq_refl).
Defined.

(** C3. A rule set has [n] entries.  The engine visits every element
    matched by the entry at index [i] as a candidate of that index, and
    scores it from the base [n - i]: that is its score when the field
    has no scorers.  Later entries have strictly lower bases, every base
    is at least 1, and the base of the last entry is 1.  The loop body
    at that element compares the score computed from [n - i] with
    [maxScore] and stores it when it is greater; the engine runs the
    body on the element in the state left by the candidates before it,
    and the final [maxScore] is at least the score computed from
    [n - i]. *)
Theorem base_score_is_count_minus_index ruleSet doc i query handler element :
  nth_error (rules ruleSet) i = Some (query, handler) ->
  In element (querySelectorAll doc query) ->
  let n := Z.of_nat (List.length (rules ruleSet)) in
  let c := {| candRule := i; candHandler := handler; candElement := element |} in
  In c (candidates ruleSet doc)
  /\ selectBest ruleSet doc = bestAfter ruleSet (candidates ruleSet doc)
  /\ candScore ruleSet c = applyScorers ruleSet element (n - Z.of_nat i)
  /\ (scorers ruleSet = None -> candScore ruleSet c = n - Z.of_nat i)
  /\ (forall j, (i < j)%nat -> baseScore ruleSet j < baseScore ruleSet i)
  /\ 1 <= baseScore ruleSet i
  /\ (S i = List.length (rules ruleSet) -> baseScore ruleSet i = 1)
  /\ (forall best,
         visit ruleSet i handler best element
         = if applyScorers ruleSet element (n - Z.of_nat i) >? maxScore best
           then {| maxScore := applyScorers ruleSet element (n - Z.of_nat i);
                   maxValue := handler element |}
           else best)
  /\ (forall pre post,
         candidates ruleSet doc = (pre ++ c :: post)%list ->
         selectBest ruleSet doc
         = fold_left (consider ruleSet) post
             (visit ruleSet i handler (bestAfter ruleSet pre) element))
  /\ applyScorers ruleSet element (n - Z.of_nat i)
     <= maxScore (selectBest ruleSet doc)
  /\ (scorers ruleSet = None ->
      n - Z.of_nat i <= maxScore (selectBest ruleSet doc)).
Proof.
  intros Hi He n c.
  assert (Hlt : (i < List.length (rules ruleSet))%nat).
  { apply nth_error_Some; congruence. }
  assert (Hin : In c (candidates ruleSet doc)).
  { now apply candidates_complete with (query := query). }
  assert (Hmax : applyScorers ruleSet element (n - Z.of_nat i)
                 <= maxScore (selectBest ruleSet doc)).
  { rewrite selectBest_fold. unfold bestAfter.
    destruct (fold_invariant ruleSet (candidates ruleSet doc) initialBest)
      as [_ [Hall _]].
    exact (Hall c Hin). }
  split; [exact Hin|].
  split; [apply selectBest_fold|].
  split; [reflexivity|].
  split; [intros Hs; unfold candScore, applyScorers; now rewrite Hs|].
  split; [intros j Hj; unfold baseScore; lia|].
  split; [unfold baseScore; lia|].
  split; [intros Hl; unfold baseScore; lia|].
  split; [intros best; reflexivity|].
  split.
  - intros pre post Hsplit. rewrite selectBest_fold, Hsplit.
    unfold bestAfter. rewrite fold_left_app. reflexivity.
  - split; [exact Hmax|].
    intros Hs. unfold applyScorers in Hmax. now rewrite Hs in Hmax.
Qed.

Lemma base_score_is_count_minus_index_example :
  candScore Sample.twoRules
    {| candRule := 1; candHandler := Sample.content;
       candElement := Sample.filled |} = 2 - 1.
Proof.
  destruct (base_score_is_count_minus_index Sample.twoRules Sample.page 1
              "meta[content]" Sample.content Sample.filled eq_refl
              (or_introl eq_refl))
    as [_ [_ [_ [H _]]]].
  exact (H eq_refl).
Defined.

(** C4. A candidate changes the selection only when its score is
    strictly greater than [maxScore]; with a score equal to or below
    [maxScore] the incumbent stays.  Hence a candidate that took the
    selection keeps it to the end when no later candidate scores
    strictly higher: the first candidate with the maximal score wins. *)
Theorem only_strict_improvement_replaces ruleSet doc pre c post :
  candidates ruleSet doc = (pre ++ c :: post)%list ->
  let before := bestAfter ruleSet pre in
  let after := consider ruleSet before c in
  (after <> before -> maxScore before < candScore ruleSet c)
  /\ (candScore ruleSet c = maxScore before -> after = before)
  /\ (candScore ruleSet c < maxScore before -> after = before)
  /\ (maxScore before < candScore ruleSet c ->
      after = {| maxScore := candScore ruleSet c; maxValue := candValue c |}
      /\ ((forall p, In p post -> candScore ruleSet p <= candScore ruleSet c) ->
          selectBest ruleSet doc =
          {| maxScore := candScore ruleSet c; maxValue := candValue c |})).
Proof.
  intros Hsplit before after.
  repeat split.
  - intros Hne. destruct (Z.lt_ge_cases (maxScore before) (candScore ruleSet c))
      as [Hlt|Hge]; [exact Hlt|].
    exfalso; apply Hne. apply consider_keeps; lia.
  - intros Heq. apply consider_keeps; lia.
  - intros Hlt. apply consider_keeps; lia.
  - now apply consider_takes.
  - intros Hpost. rewrite selectBest_fold, Hsplit.
    unfold bestAfter. rewrite fold_left_app; cbn [fold_left].
    fold before. rewrite consider_takes by exact H.
    apply fold_keeps. exact Hpost.
Qed.

Lemma only_strict_improvement_replaces_example :
  selectBest Sample.oneRule Sample.tiePage
  = {| maxScore := 1; maxValue := Some "v" |}.
Proof.
  pose (first := {| candRule := 0; candHandler := Sample.content;
                    candElement := Sample.filled |}).
  pose (second := {| candRule := 0; candHandler := Sample.content;
                     candElement := Sample.other |}).
  destruct (only_strict_improvement_replaces Sample.oneRule Sample.tiePage
              [] first [second] eq_refl) as [_ [_ [_ H]]].
  destruct H as [_ H]; [reflexivity|].
  apply H. intros p [<-|[]]. cbv; discriminate.
Defined.

(** ** The built-in fields *)

Section MaximalScore.

Variable ruleSet : RuleSet.

(** When no candidate scores above [M], some candidate scores [M], and
    the candidates that score [M] all extract [v], the loop ends with
    [M] and [v]. *)
Lemma fold_reaches_max M v cs best :
  (forall c, In c cs -> candScore ruleSet c <= M) ->
  (forall c, In c cs -> candScore ruleSet c = M -> candValue c = v) ->
  best = {| maxScore := M; maxValue := v |}
  \/ (maxScore best < M /\ exists c, In c cs /\ candScore ruleSet c = M) ->
  fold_left (consider ruleSet) cs best = {| maxScore := M; maxValue := v |}.
Proof.
  revert best; induction cs as [|c cs IH]; intros best Hle Hval Hbest.
  - destruct Hbest as [->|[_ [c [[] _]]]]. reflexivity.
  - cbn [fold_left]. apply IH.
    + intros; apply Hle; now right.
    + intros; apply Hval; [now right|assumption].
    + pose proof (Hle c (or_introl eq_refl)) as Hc.
      destruct Hbest as [->|[Hlt [c' [Hin Hc']]]].
      * left. apply consider_keeps; exact Hc.
      * rewrite consider_eq.
        destruct (Z.gtb_spec (candScore ruleSet c) (maxScore best)) as [Hgt|Hngt].
        -- destruct (Z.eq_dec (candScore ruleSet c) M) as [E|E].
           ++ left. now rewrite (Hval c (or_introl eq_refl) E), E.
           ++ right; split; [simpl; lia|].
              destruct Hin as [<-|Hin]; [contradiction|]. now exists c'.
        -- right; split; [exact Hlt|].
           destruct Hin as [<-|Hin]; [lia|]. now exists c'.
Qed.

End MaximalScore.

Section Icon.

Variable URL_href : string -> string -> option string.

Lemma icon_handlers entry :
  In entry (rules (icon URL_href)) -> snd entry = attr "href".
Proof.
  simpl; intros H.
  repeat (destruct H as [<-|H]; [reflexivity|]). destruct H.
Qed.

(** With a [sizes] attribute that starts with digits, the icon scorer
    overrides whatever base score the rule index gave. *)
Lemma icon_score_16 element base :
  getAttribute element "sizes" = Some "16x16" ->
  applyScorers (icon URL_href) element base = 16.
Proof.
  intros H. unfold applyScorers; simpl.
  unfold scorerStep, iconScorer. now rewrite H.
Qed.

Lemma icon_score_32 element base :
  getAttribute element "sizes" = Some "32x32" ->
  applyScorers (icon URL_href) element base = 32.
Proof.
  intros H. unfold applyScorers; simpl.
  unfold scorerStep, iconScorer. now rewrite H.
Qed.

End Icon.

(** C5. The document's icon candidates are elements with
    [sizes="16x16"] and an element with [sizes="32x32"], whichever of
    the seven icon selectors match them and in whatever order the
    queries list them.  The engine ends with score 32 and the [href] of
    the 32x32 element; when that [href] is a non-empty string the field
    is that reference made absolute. *)
Theorem icon_larger_size_wins URL_href doc e16 e32 :
  getAttribute e16 "sizes" = Some "16x16" ->
  getAttribute e32 "sizes" = Some "32x32" ->
  (forall entry element,
      In entry (rules (icon URL_href)) ->
      In element (querySelectorAll doc (fst entry)) ->
      element = e16 \/ element = e32) ->
  (exists entry,
      In entry (rules (icon URL_href))
      /\ In e32 (querySelectorAll doc (fst entry))) ->
  selectBest (icon URL_href) doc
  = {| maxScore := 32; maxValue := getAttribute e32 "href" |}
  /\ (forall context h,
         getAttribute e32 "href" = Some h -> h <> EmptyString ->
         buildRuleSet (icon URL_href) doc context =
         match URL_href h (url context) with
         | Some u => Returned (VStr (JsString.trim u))
         | None => Threw
         end).
Proof.
  intros H16 H32 Hall [entry [Hentry He32]].
  assert (Hsel : selectBest (icon URL_href) doc
                 = {| maxScore := 32; maxValue := getAttribute e32 "href" |}).
  { rewrite selectBest_fold. unfold bestAfter.
    assert (Hcand : forall c, In c (candidates (icon URL_href) doc) ->
              candHandler c = attr "href"
              /\ (candElement c = e16 \/ candElement c = e32)).
    { intros c Hc. destruct (candidates_sound _ _ _ Hc) as [q [Hn Hq]].
      apply nth_error_In in Hn. split.
      - exact (icon_handlers URL_href _ Hn).
      - exact (Hall _ _ Hn Hq). }
    apply fold_reaches_max.
    - intros c Hc. destruct (Hcand c Hc) as [_ [E|E]]; unfold candScore; rewrite E.
      + rewrite icon_score_16 by exact H16. lia.
      + rewrite icon_score_32 by exact H32. lia.
    - intros c Hc Hs. destruct (Hcand c Hc) as [Hh [E|E]].
      + unfold candScore in Hs; rewrite E, icon_score_16 in Hs by exact H16.
        discriminate.
      + unfold candValue; now rewrite Hh, E.
    - right; split; [reflexivity|].
      destruct entry as [q h].
      destruct (In_nth_error _ _ Hentry) as [i Hi].
      exists {| candRule := i; candHandler := h; candElement := e32 |}; split.
      + now apply candidates_complete with (query := q).
      + unfold candScore; simpl. now apply icon_score_32. }
  split; [exact Hsel|].
  intros context h Hh Hne. unfold buildRuleSet. rewrite Hsel; simpl.
  rewrite Hh. destruct h as [|a r]; [contradiction|].
  unfold withDefault, finish; simpl.
  unfold absoluteUrlProcessor, makeUrlAbsolute; simpl.
  now destruct (URL_href (String a r) (url context)).
Qed.

Lemma icon_larger_size_wins_example :
  selectBest (icon Sample.resolve) Sample.iconPage
  = {| maxScore := 32; maxValue := Some "/large.png" |}
  /\ buildRuleSet (icon Sample.resolve) Sample.iconPage Sample.here
     = Returned (VStr "https://a.com/large.png").
Proof.
  destruct (icon_larger_size_wins Sample.resolve Sample.iconPage
              Sample.small Sample.large eq_refl eq_refl) as [H1 H2].
  - intros entry element He Hin. simpl in He.
    repeat (destruct He as [<-|He];
            [cbv in Hin;
             first [ contradiction
                   | destruct Hin as [<-|[<-|[]]]; [left|right]; reflexivity ]|]).
    destruct He.
  - exists (selI "link" "rel" "icon", attr "href"); split.
    + simpl; auto.
    + cbv; auto.
  - split; [exact H1|].
    apply (H2 Sample.here "/large.png" eq_refl). discriminate.
Defined.

(** C6, as the specification states it, fails: the table of lines
    83-189 has nine keys, not seven. *)
Lemma default_table_is_not_seven_fields :
  List.length (metadataRuleSets Sample.resolve Sample.host) = 9%nat
  /\ List.length (metadataRuleSets Sample.resolve Sample.host) <> 7%nat.
Proof. split; [reflexivity|discriminate]. Qed.

(** C6, amended.  The built-in table ships exactly nine fields, in this
    order: description, icon, image, keywords, title, language, type,
    url and provider. *)
Theorem default_table_has_nine_fields URL_href URL_host :
  map fst (metadataRuleSets URL_href URL_host)
  = [ "description"; "icon"; "image"; "keywords"; "title"; "language";
      "type"; "url"; "provider" ]
  /\ List.length (metadataRuleSets URL_href URL_host) = 9%nat
  /\ NoDup (map fst (metadataRuleSets URL_href URL_host)).
Proof.
  repeat split.
  simpl. repeat (constructor; [simpl; intuition discriminate|]). constructor.
Qed.

(** ** The provider name *)

(** C7. The two hosts of the specification. *)
Theorem provider_name_examples :
  getProvider "www.example.co.uk" = "example"
  /\ getProvider "blog.example.com" = "blog example".
Proof. split; reflexivity. Qed.

(** C10. A host without a dot has a single label, which [slice(0, -1)]
    drops: the provider name is the empty string. *)
Theorem provider_of_dotless_host host :
  hasChar "." host = false -> getProvider host = EmptyString.
Proof.
  intros H. unfold getProvider.
  rewrite (JsStringFacts.replaceWww_without_dot host H).
  rewrite (JsStringFacts.replaceFirst_absent "." "co." "." host H).
  now rewrite (JsStringFacts.split_absent "." host H).
Qed.

Lemma provider_of_dotless_host_example : getProvider "localhost" = EmptyString.
Proof. apply provider_of_dotless_host. reflexivity. Defined.

(** ** The url and language fields *)

(** C8, as the specification states it, fails for the empty context
    URL: the default is the empty string, which is falsy at line 58, so
    the evaluator returns [undefined] and not the context URL. *)
Lemma url_default_of_empty_context :
  let context := {| url := EmptyString |} in
  (forall entry, In entry (rules (urlRuleSet Sample.resolve)) ->
                 querySelectorAll Sample.page (fst entry) = [])
  /\ buildRuleSet (urlRuleSet Sample.resolve) Sample.page context = Undefined
  /\ buildRuleSet (urlRuleSet Sample.resolve) Sample.page context
     <> Returned (VStr (url context)).
Proof.
  repeat split.
  - simpl; intros entry H.
    repeat (destruct H as [<-|H]; [reflexivity|]). destruct H.
  - discriminate.
Qed.

(** C8, amended.  When no rule of the url field matches, the field is
    the context URL resolved against itself and trimmed.  It is the
    context URL unchanged when that URL is not empty, resolves to itself
    and has no white space around it, as the [href] of a location
    does. *)
Theorem url_defaults_to_context_url URL_href doc context :
  (forall entry, In entry (rules (urlRuleSet URL_href)) ->
                 querySelectorAll doc (fst entry) = []) ->
  url context <> EmptyString ->
  buildRuleSet (urlRuleSet URL_href) doc context
  = match URL_href (url context) (url context) with
    | Some u => Returned (VStr (JsString.trim u))
    | None => Threw
    end
  /\ (URL_href (url context) (url context) = Some (url context) ->
      JsString.trim (url context) = url context ->
      buildRuleSet (urlRuleSet URL_href) doc context
      = Returned (VStr (url context))).
Proof.
  intros Hnone Hne.
  assert (Hsel : selectBest (urlRuleSet URL_href) doc = initialBest).
  { unfold selectBest; cbn [urlRuleSet rules ruleLoop]. unfold ruleStep.
    pose proof (Hnone ("a.amp-canurl", attr "href")) as H1.
    pose proof (Hnone (sel "link" "rel" "canonical", attr "href")) as H2.
    pose proof (Hnone (sel "meta" "property" "og:url", attr "content")) as H3.
    cbn [fst] in H1, H2, H3.
    rewrite H1, H2, H3 by (simpl; auto). reflexivity. }
  assert (Hrun : buildRuleSet (urlRuleSet URL_href) doc context
                 = match URL_href (url context) (url context) with
                   | Some u => Returned (VStr (JsString.trim u))
                   | None => Threw
                   end).
  { unfold buildRuleSet. rewrite Hsel.
    unfold withDefault, finish; simpl.
    destruct (url context) as [|a r] eqn:E; [contradiction|].
    simpl. unfold absoluteUrlProcessor, makeUrlAbsolute; simpl; rewrite E.
    now destruct (URL_href (String a r) (String a r)). }
  split; [exact Hrun|].
  intros Hself Htrim. now rewrite Hrun, Hself, Htrim.
Qed.

Lemma url_defaults_to_context_url_example :
  buildRuleSet (urlRuleSet Sample.resolve) Sample.page Sample.here
  = Returned (VStr "https://a.com/x/y").
Proof.
  destruct (url_defaults_to_context_url Sample.resolve Sample.page Sample.here)
    as [_ H].
  - simpl; intros entry H.
    repeat (destruct H as [<-|H]; [reflexivity|]). destruct H.
  - discriminate.
  - apply H; reflexivity.
Defined.

(** C9. The processor of the language field returns what precedes the
    first hyphen of the value, and the whole value when it has no
    hyphen. *)
Theorem language_keeps_text_before_hyphen value context l :
  processors language = Some l ->
  (forall a b,
      value = a ++ String "-" b -> hasChar "-" a = false ->
      runProcessors l context (VStr value) = Some (VStr a))
  /\ (hasChar "-" value = false ->
      runProcessors l context (VStr value) = Some (VStr value)).
Proof.
  intros Hl. injection Hl as <-. split.
  - intros a b -> Ha. simpl.
    now rewrite (JsStringFacts.split_head "-" a b Ha).
  - intros Hv. simpl. now rewrite (JsStringFacts.split_absent "-" value Hv).
Qed.

Lemma language_keeps_text_before_hyphen_example :
  runProcessors [languageProcessor] Sample.here (VStr "en-US")
  = Some (VStr "en").
Proof.
  destruct (language_keeps_text_before_hyphen "en-US" Sample.here
              [languageProcessor] eq_refl) as [H _].
  apply (H "en" "US"); reflexivity.
Defined.

(** ** Checks of the embedding on the inputs of the specification *)

Example getProvider_www : getProvider "www2.mozilla.org" = "mozilla".
Proof. reflexivity. Qed.

Example trim_content : JsString.trim "  Hello World  " = "Hello World".
Proof. reflexivity. Qed.

Example keywords_split :
  keywordsProcessor (VStr "a, b,c") Sample.here = Some (VList ["a"; "b"; "c"]).
Proof. reflexivity. Qed.

Example icon_made_absolute :
  absoluteUrlProcessor Sample.resolve (VStr "/fav.png") Sample.here
  = Some (VStr "https://a.com/fav.png").
Proof. reflexivity. Qed.

Example type_is_absent :
  buildRuleSet type Sample.page Sample.here = Undefined.
Proof. reflexivity. Qed.

(** * Further properties of the code *)

(** ** More on strings *)

Module JsStringMore.
Import JsString.

Lemma trimStart_headOk s : headOk (trimStart s) = true.
Proof.
  induction s as [|c r IH]; simpl; [reflexivity|].
  destruct (isSpace c) eqn:E; [exact IH|]. simpl. now rewrite E.
Qed.

Lemma trimStart_fixed s : headOk s = true -> trimStart s = s.
Proof.
  destruct s as [|c r]; simpl; [reflexivity|].
  now destruct (isSpace c).
Qed.

Lemma trimEnd_headOk s : headOk s = true -> headOk (trimEnd s) = true.
Proof.
  destruct s as [|c r]; simpl; [reflexivity|].
  intros H. destruct (isSpace c) eqn:E; [discriminate|].
  destruct (trimEnd r); simpl; now rewrite E.
Qed.

Lemma trimEnd_idempotent s : trimEnd (trimEnd s) = trimEnd s.
Proof.
  induction s as [|c r IH]; simpl; [reflexivity|].
  destruct (trimEnd r) as [|a r'] eqn:E.
  - destruct (isSpace c) eqn:S; simpl; [reflexivity|]. now rewrite S.
  - remember (String a r') as t eqn:Ht. simpl. rewrite IH. now subst t.
Qed.

Lemma trim_idempotent s : trim (trim s) = trim s.
Proof.
  unfold trim.
  rewrite (trimStart_fixed (trimEnd (trimStart s))).
  - apply trimEnd_idempotent.
  - apply trimEnd_headOk, trimStart_headOk.
Qed.

Lemma hasChar_trimStart c s :
  hasChar c s = false -> hasChar c (trimStart s) = false.
Proof.
  induction s as [|a r IH]; simpl; [reflexivity|].
  intros H. destruct (isSpace a); [|exact H].
  apply orb_false_iff in H. apply IH, H.
Qed.

Lemma hasChar_trimEnd c s :
  hasChar c s = false -> hasChar c (trimEnd s) = false.
Proof.
  induction s as [|a r IH]; simpl; [reflexivity|].
  intros H. apply orb_false_iff in H. destruct H as [Ha Hr].
  specialize (IH Hr). destruct (trimEnd r) as [|b r'].
  - destruct (isSpace a); simpl; [reflexivity|]. now rewrite Ha.
  - simpl in *. now rewrite Ha.
Qed.

Lemma hasChar_trim c s : hasChar c s = false -> hasChar c (trim s) = false.
Proof. intros H. now apply hasChar_trimEnd, hasChar_trimStart. Qed.

Lemma split_not_nil c s : split c s <> [].
Proof.
  destruct s as [|a r]; simpl; [discriminate|].
  destruct (Ascii.eqb a c); [discriminate|].
  destruct (split c r); discriminate.
Qed.

Lemma split_pieces c s :
  Forall (fun piece => hasChar c piece = false) (split c s).
Proof.
  induction s as [|a r IH]; simpl.
  - now constructor.
  - destruct (Ascii.eqb a c) eqn:E.
    + now constructor.
    + destruct (split c r) as [|h t].
      * constructor; [simpl; now rewrite E|constructor].
      * inversion IH; subst. constructor; [simpl; now rewrite E|assumption].
Qed.

Lemma split_length c s : List.length (split c s) = S (countChar c s).
Proof.
  induction s as [|a r IH]; simpl; [reflexivity|].
  destruct (Ascii.eqb a c); simpl.
  - now rewrite IH.
  - destruct (split c r); simpl in *; [discriminate|exact IH].
Qed.

Lemma split_app c a b :
  hasChar c a = false -> split c (a ++ String c b) = a :: split c b.
Proof.
  induction a as [|x a IH]; simpl; intros H.
  - now rewrite Ascii.eqb_refl.
  - apply orb_false_iff in H; destruct H as [Hx Ha].
    now rewrite Hx, (IH Ha).
Qed.

(** [split] undoes [join] on a non-empty list of pieces without the
    separator. *)
Lemma split_join c labels :
  labels <> [] ->
  Forall (fun label => hasChar c label = false) labels ->
  split c (join (String c EmptyString) labels) = labels.
Proof.
  induction labels as [|x rest IH]; intros Hne Hall; [contradiction|].
  inversion Hall as [|? ? Hx Hrest]; subst.
  destruct rest as [|y rest].
  - simpl. now apply JsStringFacts.split_absent.
  - change (join (String c EmptyString) (x :: y :: rest))
      with (x ++ String c (join (String c EmptyString) (y :: rest))).
    rewrite (split_app c x _ Hx). f_equal. apply IH; [discriminate|assumption].
Qed.

Lemma hasChar_join c sep l :
  hasChar c sep = false ->
  Forall (fun piece => hasChar c piece = false) l ->
  hasChar c (join sep l) = false.
Proof.
  intros Hsep. induction l as [|x rest IH]; intros Hall; [reflexivity|].
  inversion Hall as [|? ? Hx Hrest]; subst.
  destruct rest as [|y rest]; [exact Hx|].
  change (join sep (x :: y :: rest)) with (x ++ sep ++ join sep (y :: rest)).
  rewrite !JsStringFacts.hasChar_app, Hx, Hsep. now apply IH.
Qed.

Lemma Forall_removelast {A} (P : A -> Prop) l :
  Forall P l -> Forall P (removelast l).
Proof.
  induction l as [|x rest IH]; intros H; [constructor|].
  inversion H; subst. destruct rest; [constructor|].
  cbn [removelast]. constructor; [assumption|now apply IH].
Qed.

Lemma hasSub_prefix pat s : hasSub pat s = false -> prefix pat s = false.
Proof.
  destruct s; simpl; intros H; apply orb_false_iff in H; apply H.
Qed.

Lemma replaceFirst_without pat rep s :
  hasSub pat s = false -> replaceFirst pat rep s = s.
Proof.
  induction s as [|a r IH]; intros H.
  - cbn [replaceFirst]. now rewrite (hasSub_prefix _ _ H).
  - cbn [replaceFirst]. rewrite (hasSub_prefix _ _ H).
    cbn [hasSub] in H. apply orb_false_iff in H. now rewrite (IH (proj2 H)).
Qed.

Lemma replaceWww_without s : hasSub "www" s = false -> replaceWww s = s.
Proof.
  induction s as [|a r IH]; intros H.
  - reflexivity.
  - cbn [replaceWww]. unfold matchWww. rewrite (hasSub_prefix _ _ H).
    cbn [hasSub] in H. apply orb_false_iff in H. now rewrite (IH (proj2 H)).
Qed.

(** The first [.co.] of a string follows a part without dots. *)
Lemma replaceFirst_co name rest :
  hasChar "." name = false ->
  replaceFirst ".co." "." (name ++ ".co." ++ rest) = name ++ "." ++ rest.
Proof.
  induction name as [|a r IH]; intros H.
  - destruct rest; reflexivity.
  - simpl in H. apply orb_false_iff in H; destruct H as [Ha Hr].
    cbn [append replaceFirst]. cbn [prefix].
    destruct (ascii_dec "." a) as [<-|_]; [discriminate|].
    f_equal. exact (IH Hr).
Qed.

(** [join] undoes [split]: the pieces of a string, joined by the
    separator, are the string. *)
Lemma join_split c s : join (String c EmptyString) (split c s) = s.
Proof.
  induction s as [|a r IH]; [reflexivity|].
  cbn [split]. destruct (Ascii.eqb_spec a c) as [->|Hne].
  - destruct (split c r) as [|h t] eqn:E; [now apply split_not_nil in E|].
    change (join (String c EmptyString) (EmptyString :: h :: t))
      with (String c (join (String c EmptyString) (h :: t))).
    now rewrite IH.
  - destruct (split c r) as [|h t] eqn:E; [now apply split_not_nil in E|].
    destruct t as [|h' t].
    + cbn [join] in *. now rewrite IH.
    + change (join (String c EmptyString) (String a h :: h' :: t))
        with (String a (join (String c EmptyString) (h :: h' :: t))).
      now rewrite IH.
Qed.

End JsStringMore.

(** ** [getProvider], lines 13-20 *)

(** X1. The provider name never contains a dot: the host is split on
    dots and the labels are joined with spaces. *)
Theorem provider_name_has_no_dot host :
  hasChar "." (getProvider host) = false.
Proof.
  unfold getProvider. apply JsStringMore.hasChar_join; [reflexivity|].
  apply JsStringMore.Forall_removelast, JsStringMore.split_pieces.
Qed.

(** X2. For a host made of labels joined by dots, with no [www] and no
    [.co.] in it, the provider name is all labels but the last, joined
    by spaces. *)
Theorem provider_drops_last_label labels :
  labels <> [] ->
  Forall (fun label => hasChar "." label = false) labels ->
  hasSub "www" (JsString.join "." labels) = false ->
  hasSub ".co." (JsString.join "." labels) = false ->
  getProvider (JsString.join "." labels)
  = JsString.join " " (removelast labels).
Proof.
  intros Hne Hall Hwww Hco. unfold getProvider.
  rewrite (JsStringMore.replaceWww_without _ Hwww).
  rewrite (JsStringMore.replaceFirst_without _ _ _ Hco).
  now rewrite (JsStringMore.split_join "." labels Hne Hall).
Qed.

Lemma provider_drops_last_label_example :
  getProvider "blog.example.com" = "blog example".
Proof.
  apply (provider_drops_last_label ["blog"; "example"; "com"]).
  - discriminate.
  - repeat constructor.
  - reflexivity.
  - reflexivity.
Defined.

(** X3. A host [name.co.tld] without [www], where [name] and [tld] have
    no dots, has the provider name [name]. *)
Theorem provider_collapses_co name tld :
  hasChar "." name = false ->
  hasChar "." tld = false ->
  hasSub "www" (name ++ ".co." ++ tld) = false ->
  getProvider (name ++ ".co." ++ tld) = name.
Proof.
  intros Hname Htld Hwww. unfold getProvider.
  rewrite (JsStringMore.replaceWww_without _ Hwww).
  rewrite (JsStringMore.replaceFirst_co name tld Hname).
  change (name ++ "." ++ tld) with (name ++ String "." tld).
  rewrite (JsStringMore.split_app "." name tld Hname).
  now rewrite (JsStringFacts.split_absent "." tld Htld).
Qed.

Lemma provider_collapses_co_example : getProvider "example.co.uk" = "example".
Proof. apply (provider_collapses_co "example" "uk"); reflexivity. Defined.

Lemma dropWhile_run p w rest :
  allChars p w = true ->
  JsString.dropWhile p (w ++ rest) = JsString.dropWhile p rest.
Proof.
  induction w as [|a r IH]; simpl; intros H; [reflexivity|].
  apply andb_true_iff in H; destruct H as [Ha Hr]. now rewrite Ha, IH.
Qed.

(** X4. A first label that is [www] followed by letters and digits is
    removed before anything else: such a host has the provider name of
    the host without that label, when no further [www] follows. *)
Theorem provider_ignores_www_label w rest :
  allChars JsString.isAlnum w = true ->
  hasSub "www" rest = false ->
  getProvider ("www" ++ w ++ "." ++ rest) = getProvider rest.
Proof.
  intros Hw Hrest. unfold getProvider.
  rewrite (JsStringMore.replaceWww_without rest Hrest).
  assert (E : JsString.replaceWww ("www" ++ w ++ "." ++ rest) = rest).
  { change ("www" ++ w ++ "." ++ rest)
      with (String "w" (String "w" (String "w" (w ++ String "." rest)))).
    cbn [JsString.replaceWww]. unfold JsString.matchWww.
    cbn [prefix JsString.drop].
    destruct (ascii_dec "w" "w") as [_|N]; [|now elim N].
    replace (prefix EmptyString (w ++ String "." rest)) with true
      by (now destruct (w ++ String "." rest)).
    rewrite (dropWhile_run JsString.isAlnum w (String "." rest) Hw).
    reflexivity. }
  now rewrite E.
Qed.

Lemma provider_ignores_www_label_example :
  getProvider "www2.mozilla.org" = getProvider "mozilla.org".
Proof. apply (provider_ignores_www_label "2" "mozilla.org"); reflexivity. Defined.

(** ** The keywords processor, line 141 *)

(** X5. The keywords processor cuts a string at its commas and trims
    each piece.  Every string is a list of comma-free pieces joined by
    commas, in one way only; the result is the list of those pieces,
    trimmed, in their order: one more keyword than there are commas,
    empty pieces included, each without a comma and without white space
    around it. *)
Theorem keywords_are_trimmed_pieces value context :
  (exists pieces,
      value = JsString.join "," pieces
      /\ pieces <> []
      /\ Forall (fun piece => hasChar "," piece = false) pieces
      /\ keywordsProcessor (VStr value) context
         = Some (VList (map JsString.trim pieces))
      /\ List.length (map JsString.trim pieces) = S (countChar "," value)
      /\ Forall (fun keyword =>
                   JsString.trim keyword = keyword
                   /\ hasChar "," keyword = false)
                (map JsString.trim pieces))
  /\ (forall pieces,
         pieces <> [] ->
         Forall (fun piece => hasChar "," piece = false) pieces ->
         value = JsString.join "," pieces ->
         keywordsProcessor (VStr value) context
         = Some (VList (map JsString.trim pieces))).
Proof.
  split.
  - exists (JsString.split "," value).
    split; [symmetry; apply JsStringMore.join_split|].
    split; [apply JsStringMore.split_not_nil|].
    split; [apply JsStringMore.split_pieces|].
    split; [reflexivity|]. split.
    + now rewrite length_map, JsStringMore.split_length.
    + apply Forall_map.
      eapply Forall_impl; [|apply (JsStringMore.split_pieces "," value)].
      intros piece Hp. split.
      * apply JsStringMore.trim_idempotent.
      * now apply JsStringMore.hasChar_trim.
  - intros pieces Hne Hall ->. cbn [keywordsProcessor].
    now rewrite (JsStringMore.split_join "," pieces Hne Hall).
Qed.

Lemma keywords_are_trimmed_pieces_example :
  keywordsProcessor (VStr "a, b,,c ") Sample.here
  = Some (VList ["a"; "b"; EmptyString; "c"]).
Proof.
  destruct (keywords_are_trimmed_pieces "a, b,,c " Sample.here) as [_ H].
  apply (H ["a"; " b"; EmptyString; "c "]).
  - discriminate.
  - repeat constructor.
  - reflexivity.
Defined.

(** ** [buildRuleSet], lines 22-72 *)

(** X6. The engine ends with a score that no candidate exceeds and that
    is never negative.  Either nothing was selected and the state is
    the initial one, or the score is positive and both the score and the
    value are those of one candidate. *)
Theorem selection_is_a_top_candidate ruleSet doc :
  let best := selectBest ruleSet doc in
  0 <= maxScore best
  /\ (forall c, In c (candidates ruleSet doc) ->
                candScore ruleSet c <= maxScore best)
  /\ (best = initialBest
      \/ exists c, In c (candidates ruleSet doc)
                   /\ candScore ruleSet c = maxScore best
                   /\ candValue c = maxValue best
                   /\ 0 < candScore ruleSet c).
Proof.
  cbv zeta. rewrite selectBest_fold. unfold bestAfter.
  exact (fold_invariant ruleSet (candidates ruleSet doc) initialBest).
Qed.

(** X7. Candidates whose final score is zero or negative are never
    selected: when every candidate scores that low the field is what
    its default alone gives. *)
Theorem nonpositive_scores_select_nothing ruleSet doc context :
  (forall c, In c (candidates ruleSet doc) -> candScore ruleSet c <= 0) ->
  selectBest ruleSet doc = initialBest
  /\ buildRuleSet ruleSet doc context
     = match withDefault ruleSet context None with
       | Some v => finish ruleSet context v
       | None => Threw
       end.
Proof.
  intros H.
  assert (E : selectBest ruleSet doc = initialBest).
  { rewrite selectBest_fold. apply fold_keeps. exact H. }
  split; [exact E|]. unfold buildRuleSet. now rewrite E.
Qed.

Lemma nonpositive_scores_select_nothing_example :
  selectBest Sample.negativeScored Sample.page = initialBest
  /\ buildRuleSet Sample.negativeScored Sample.page Sample.here = Undefined.
Proof.
  apply (nonpositive_scores_select_nothing Sample.negativeScored Sample.page
           Sample.here).
  intros c Hc. cbv in Hc. destruct Hc as [<-|[]]. cbv; discriminate.
Defined.

(** X8. When no selector of the field matches an element, the field is
    [undefined] without a default; with a default it is the default
    run through the processors, and the call throws when the default
    function throws. *)
Theorem unmatched_field_is_its_default ruleSet doc context :
  (forall entry, In entry (rules ruleSet) ->
                 querySelectorAll doc (fst entry) = []) ->
  buildRuleSet ruleSet doc context
  = match defaultValue ruleSet with
    | None => Undefined
    | Some f =>
        match f context with
        | Some d => finish ruleSet context (Some d)
        | None => Threw
        end
    end.
Proof.
  intros H.
  assert (E : selectBest ruleSet doc = initialBest).
  { rewrite selectBest_fold. unfold bestAfter, candidates.
    rewrite candidates_none; [reflexivity|].
    intros j q h _ Hj. exact (H (q, h) (nth_error_In _ _ Hj)). }
  unfold buildRuleSet, withDefault. rewrite E. cbn [maxValue initialBest truthyValue].
  destruct (defaultValue ruleSet) as [f|]; [|reflexivity].
  now destruct (f context).
Qed.

Lemma unmatched_field_is_its_default_example :
  buildRuleSet (provider Sample.host) Sample.page Sample.here
  = Returned (VStr "a").
Proof.
  rewrite (unmatched_field_is_its_default (provider Sample.host) Sample.page
             Sample.here).
  - reflexivity.
  - simpl; intros entry [<-|[]]; reflexivity.
Defined.

(** X9. Without scorers the declared order alone decides: the engine
    selects the first element, in document order, of the first entry
    whose selector matches anything, with the score [n - i] of that
    entry. *)
Theorem first_matching_entry_wins ruleSet doc i query handler element more :
  scorers ruleSet = None ->
  nth_error (rules ruleSet) i = Some (query, handler) ->
  querySelectorAll doc query = element :: more ->
  (forall j q h, (j < i)%nat ->
                 nth_error (rules ruleSet) j = Some (q, h) ->
                 querySelectorAll doc q = []) ->
  selectBest ruleSet doc
  = {| maxScore := Z.of_nat (List.length (rules ruleSet)) - Z.of_nat i;
       maxValue := handler element |}.
Proof.
  intros Hs Hi Hq Hbefore.
  assert (Hlt : (i < List.length (rules ruleSet))%nat).
  { apply nth_error_Some; congruence. }
  assert (Hscore : forall c, candScore ruleSet c = baseScore ruleSet (candRule c)).
  { intros c. unfold candScore, applyScorers. now rewrite Hs. }
  pose (c := {| candRule := i; candHandler := handler; candElement := element |}).
  assert (Hsplit : exists post,
             candidates ruleSet doc = c :: post
             /\ forall p, In p post -> (i <= candRule p)%nat).
  { unfold candidates.
    replace (List.length (rules ruleSet))
      with (i + S (List.length (rules ruleSet) - S i))%nat by lia.
    rewrite seq_app, flat_map_app, candidates_none.
    - cbn [seq flat_map app Nat.add]. unfold candidatesAt at 1.
      rewrite Hi, Hq. cbn [map app]. eexists; split; [reflexivity|].
      intros p Hp. apply in_app_or in Hp. destruct Hp as [Hp|Hp].
      + apply in_map_iff in Hp. destruct Hp as [e [<- _]]. simpl; lia.
      + apply candidates_from in Hp. lia.
    - intros j q h Hj. apply Hbefore. lia. }
  destruct Hsplit as [post [Hc Hpost]].
  rewrite selectBest_fold. unfold bestAfter. rewrite Hc. cbn [fold_left].
  rewrite consider_takes.
  - rewrite fold_keeps.
    + now rewrite Hscore.
    + intros p Hp. cbn [maxScore]. rewrite !Hscore. unfold baseScore.
      specialize (Hpost p Hp). simpl. lia.
  - rewrite Hscore. unfold baseScore. simpl. lia.
Qed.

Lemma first_matching_entry_wins_example :
  selectBest Sample.twoRules Sample.tiePage
  = {| maxScore := 2 - 1; maxValue := Some "v" |}.
Proof.
  apply (first_matching_entry_wins Sample.twoRules Sample.tiePage 1
           "meta[content]" Sample.content Sample.filled [Sample.other]).
  - reflexivity.
  - reflexivity.
  - reflexivity.
  - intros j q h Hj Hn. destruct j as [|j]; [|lia].
    injection Hn as <- _. reflexivity.
Defined.

Lemma ruleLoop_same_answers ruleSet doc1 doc2 todo k best :
  (forall entry, In entry todo ->
                 querySelectorAll doc1 (fst entry)
                 = querySelectorAll doc2 (fst entry)) ->
  ruleLoop ruleSet doc1 todo k best = ruleLoop ruleSet doc2 todo k best.
Proof.
  revert k best; induction todo as [|entry rest IH]; intros k best H.
  - reflexivity.
  - cbn [ruleLoop].
    assert (E : ruleStep ruleSet doc1 k entry best
                = ruleStep ruleSet doc2 k entry best).
    { unfold ruleStep. destruct entry as [q h].
      pose proof (H (q, h) (or_introl eq_refl)) as E0. cbn [fst] in E0.
      now rewrite E0. }
    rewrite E. apply IH. intros e He. apply H. now right.
Qed.

(** X10. The engine reads a document through the selectors of the rule
    set only: two documents that answer those selectors alike give the
    same result. *)
Theorem only_declared_selectors_matter ruleSet doc1 doc2 context :
  (forall entry, In entry (rules ruleSet) ->
                 querySelectorAll doc1 (fst entry)
                 = querySelectorAll doc2 (fst entry)) ->
  buildRuleSet ruleSet doc1 context = buildRuleSet ruleSet doc2 context.
Proof.
  intros H. unfold buildRuleSet, selectBest.
  now rewrite (ruleLoop_same_answers ruleSet doc1 doc2 _ 0%nat initialBest H).
Qed.

Lemma only_declared_selectors_matter_example :
  buildRuleSet Sample.twoRules Sample.page Sample.here
  = buildRuleSet Sample.twoRules Sample.largerPage Sample.here.
Proof.
  apply only_declared_selectors_matter.
  simpl; intros entry [<-|[<-|[]]]; reflexivity.
Defined.

Lemma finish_string ruleSet context v s :
  finish ruleSet context v = Returned (VStr s) -> JsString.trim s = s.
Proof.
  unfold finish. destruct v as [s0|]; [|discriminate].
  destruct (JsString.truthy s0); [|discriminate].
  destruct (match processors ruleSet with
            | Some l => runProcessors l context (VStr s0)
            | None => Some (VStr s0)
            end) as [[s1|l1]|]; try discriminate.
  cbn [trimValue]. intros H; injection H as <-.
  apply JsStringMore.trim_idempotent.
Qed.

(** X11. A string that an evaluator returns has no white space at
    either end. *)
Theorem returned_string_is_trimmed ruleSet doc context s :
  buildRuleSet ruleSet doc context = Returned (VStr s) ->
  JsString.trim s = s.
Proof.
  unfold buildRuleSet.
  destruct (withDefault ruleSet context (maxValue (selectBest ruleSet doc)))
    as [v|]; [|discriminate].
  apply finish_string.
Qed.

Lemma returned_string_is_trimmed_example : JsString.trim "v" = "v".
Proof.
  apply (returned_string_is_trimmed Sample.oneRule Sample.tiePage Sample.here).
  reflexivity.
Defined.

(** X12. Lines 54-70 for a rule set without processors: whatever value
    the loop has left in [maxValue], the steps after the loop throw in
    one case only, when that value is falsy and the default function
    throws.  A throw inside the loop, by a selector the DOM rejects or
    by an extractor or scorer, is not part of this statement. *)
Theorem throws_only_through_default ruleSet context selected :
  processors ruleSet = None ->
  match withDefault ruleSet context selected with
  | Some v => finish ruleSet context v
  | None => Threw
  end = Threw
  <-> truthyValue selected = false
      /\ exists f, defaultValue ruleSet = Some f /\ f context = None.
Proof.
  intros Hp.
  assert (Hfin : forall v, finish ruleSet context v <> Threw).
  { intros v. unfold finish. rewrite Hp.
    destruct v as [s|]; [|discriminate].
    destruct (JsString.truthy s); discriminate. }
  unfold withDefault.
  destruct (truthyValue selected) eqn:T.
  - split; [intros H; now apply Hfin in H|intros [H _]; discriminate].
  - destruct (defaultValue ruleSet) as [f|].
    + destruct (f context) as [d|] eqn:F.
      * split; [intros H; now apply Hfin in H|].
        intros [_ [g [Hg Hn]]]. injection Hg as <-. congruence.
      * split; [intros _; split; [reflexivity|now exists f]|reflexivity].
    + split; [intros H; now apply Hfin in H|].
      intros [_ [g [Hg _]]]. discriminate.
Qed.

Lemma throws_only_through_default_example :
  buildRuleSet (provider (fun _ => None)) Sample.page Sample.here = Threw.
Proof.
  apply (throws_only_through_default (provider (fun _ => None)) Sample.here
           (maxValue (selectBest (provider (fun _ => None)) Sample.page))
           eq_refl).
  split; [reflexivity|].
  exists (providerDefault (fun _ => None)). split; reflexivity.
Defined.

(** X13. A selected value that is a non-empty string goes to the
    processors and the default is not consulted.  Without processors the
    field is that value trimmed, so a value of white space only gives
    the empty string and not the default. *)
Theorem selected_value_skips_default ruleSet doc context s :
  maxValue (selectBest ruleSet doc) = Some s ->
  s <> EmptyString ->
  buildRuleSet ruleSet doc context
  = match processors ruleSet with
    | None => Returned (VStr (JsString.trim s))
    | Some l =>
        match runProcessors l context (VStr s) with
        | Some v => Returned (trimValue v)
        | None => Threw
        end
    end.
Proof.
  intros Hsel Hne. unfold buildRuleSet, withDefault. rewrite Hsel.
  destruct s as [|a r]; [contradiction|]. cbn [truthyValue JsString.truthy].
  unfold finish. cbn [JsString.truthy].
  now destruct (processors ruleSet).
Qed.

Lemma selected_value_skips_default_example :
  buildRuleSet Sample.withFallback Sample.blankPage Sample.here
  = Returned (VStr EmptyString).
Proof.
  rewrite (selected_value_skips_default Sample.withFallback Sample.blankPage
             Sample.here "   ").
  - reflexivity.
  - reflexivity.
  - discriminate.
Defined.

(** X14. Processors chain from left to right, and a processor that
    throws stops the chain. *)
Theorem processors_chain l1 l2 context v :
  runProcessors (l1 ++ l2)%list context v
  = match runProcessors l1 context v with
    | Some v' => runProcessors l2 context v'
    | None => None
    end.
Proof.
  revert v; induction l1 as [|p l1 IH]; intros v; cbn [app runProcessors].
  - reflexivity.
  - destruct (p v context) as [v'|]; [apply IH|reflexivity].
Qed.

(** ** The icon field, lines 91-120 *)



(** ** [getMetadata], lines 191-207 *)

Lemma evaluateAll_fields ruleSets doc context record :
  evaluateAll ruleSets doc context = Some record ->
  Forall2 (fieldOf doc context) (stored ruleSets) record.
Proof.
  revert record; induction ruleSets as [|[key ruleSet] rest IH]; intros record.
  - cbn [evaluateAll]. intros H; injection H as <-. constructor.
  - cbn [evaluateAll stored filter fst]. fold (stored rest). unfold assign.
    destruct (buildRuleSet ruleSet doc context) as [| |v] eqn:E;
      [discriminate| |];
      (destruct (evaluateAll rest doc context) as [tail|]; [|discriminate]);
      cbn [option_map]; destruct (String.eqb key "__proto__");
      cbn [negb]; intros H; injection H as <-;
      first [ now apply IH
            | constructor; [split; [reflexivity|exact E]|now apply IH] ].
Qed.

Lemma evaluateAll_throws ruleSets doc context :
  evaluateAll ruleSets doc context = None
  <-> exists key ruleSet,
        In (key, ruleSet) ruleSets
        /\ buildRuleSet ruleSet doc context = Threw.
Proof.
  induction ruleSets as [|[key ruleSet] rest IH]; cbn [evaluateAll].
  - split; [discriminate|intros [k [r [[] _]]]].
  - assert (Hrest : forall (f : list (string * option Value)
                                -> list (string * option Value)),
               buildRuleSet ruleSet doc context <> Threw ->
               option_map f (evaluateAll rest doc context) = None
               <-> exists k r, In (k, r) ((key, ruleSet) :: rest)
                               /\ buildRuleSet r doc context = Threw).
    { intros f Hok. split.
      - intros H. destruct (evaluateAll rest doc context); [discriminate|].
        destruct (proj1 IH eq_refl) as [k [r [Hin Ht]]].
        exists k, r. split; [now right|exact Ht].
      - intros [k [r [[Hin|Hin] Ht]]].
        + inversion Hin; subst. contradiction.
        + rewrite (proj2 IH (ex_intro _ k (ex_intro _ r (conj Hin Ht)))).
          reflexivity. }
    destruct (buildRuleSet ruleSet doc context) as [| |v] eqn:E.
    + split; [|reflexivity]. intros _. exists key, ruleSet.
      split; [now left|exact E].
    + apply Hrest. discriminate.
    + apply Hrest. discriminate.
Qed.

(** X16. When [getMetadata] returns, the record has one own key for
    each key of the table it evaluated (the custom table when one is
    given, the built-in one otherwise) except the key [__proto__], in
    the order of the table, and under each key the outcome of that
    field's evaluator for the document and the [href] of the location.
    For a table without the key [__proto__], as the built-in one, the
    keys of the record are exactly the keys of the table. *)
Theorem metadata_has_one_field_per_key URL_href URL_host doc location custom record :
  getMetadata URL_href URL_host doc location custom = Some record ->
  let table := tableOf (metadataRuleSets URL_href URL_host) custom in
  let context := {| url := href location |} in
  map fst record = map fst (stored table)
  /\ Forall2 (fieldOf doc context) (stored table) record
  /\ (~ In "__proto__" (map fst table) ->
      map fst record = map fst table
      /\ Forall2 (fieldOf doc context) table record)
  /\ (custom = None ->
      map fst record
      = [ "description"; "icon"; "image"; "keywords"; "title"; "language";
          "type"; "url"; "provider" ]).
Proof.
  intros H table context.
  assert (F : Forall2 (fieldOf doc context) (stored table) record).
  { apply evaluateAll_fields. unfold getMetadata in H. unfold table, tableOf.
    now destruct custom. }
  assert (K : map fst record = map fst (stored table)).
  { clear H. induction F as [|entry field t r [Hk _] _ IH]; [reflexivity|].
    cbn [map]. now rewrite Hk, IH. }
  assert (Hst : ~ In "__proto__" (map fst table) -> stored table = table).
  { clear. induction table as [|[k r] t IH]; intros Hn; [reflexivity|].
    cbn [stored filter fst]. fold (stored t).
    destruct (String.eqb_spec k "__proto__") as [->|_].
    - exfalso; apply Hn; now left.
    - cbn [negb]. rewrite IH; [reflexivity|].
      intros Hin; apply Hn; now right. }
  split; [exact K|]. split; [exact F|]. split.
  - intros Hn. rewrite <- (Hst Hn). now split.
  - intros ->. rewrite K. reflexivity.
Qed.

Lemma metadata_has_one_field_per_key_example :
  map fst [("first", @None Value); ("second", Some (VStr "v"))]
  = map fst (stored Sample.protoTable).
Proof.
  apply (metadata_has_one_field_per_key Sample.resolve Sample.host Sample.page
           {| href := "https://a.com/x/y" |} (Some Sample.protoTable)).
  reflexivity.
Defined.

(** X17. [getMetadata] throws exactly when the evaluator of some field
    of the table throws; no field is skipped and no exception is
    caught. *)
Theorem metadata_throws_iff_a_field_throws URL_href URL_host doc location custom :
  getMetadata URL_href URL_host doc location custom = None
  <-> exists key ruleSet,
        In (key, ruleSet) (tableOf (metadataRuleSets URL_href URL_host) custom)
        /\ buildRuleSet ruleSet doc {| url := href location |} = Threw.
Proof.
  unfold getMetadata, tableOf. destruct custom; apply evaluateAll_throws.
Qed.

(** X18. With the built-in table, a location whose [href] the [URL]
    constructor rejects as a base makes [getMetadata] throw for every
    document: the icon field always passes a value, selected or
    default, to [makeUrlAbsolute]. *)
Theorem metadata_needs_a_valid_base URL_href URL_host doc location :
  (forall relative, URL_href relative (href location) = None) ->
  buildRuleSet (icon URL_href) doc {| url := href location |} = Threw
  /\ getMetadata URL_href URL_host doc location None = None.
Proof.
  intros Hbad.
  assert (Hicon : buildRuleSet (icon URL_href) doc {| url := href location |}
                  = Threw).
  { unfold buildRuleSet, withDefault.
    destruct (maxValue (selectBest (icon URL_href) doc)) as [[|a r]|];
      cbn [truthyValue JsString.truthy icon defaultValue];
      unfold finish; cbn [JsString.truthy icon processors runProcessors];
      unfold absoluteUrlProcessor, makeUrlAbsolute; cbn [url toString];
      now rewrite Hbad. }
  split; [exact Hicon|].
  unfold getMetadata. apply evaluateAll_throws.
  exists "icon", (icon URL_href). split; [simpl; auto|exact Hicon].
Qed.

Lemma metadata_needs_a_valid_base_example :
  getMetadata Sample.strictResolve Sample.host Sample.page
    {| href := "not a url" |} None = None.
Proof.
  apply (metadata_needs_a_valid_base Sample.strictResolve Sample.host
           Sample.page {| href := "not a url" |}).
  reflexivity.
Defined.

(** ** The provider field, lines 9-11 and 183-188 *)

(** X19. Without an [og:site_name] element the provider field parses
    the context URL: it throws when the [URL] constructor does, it is
    [undefined] when the provider name of the host is empty, as for a
    host without a dot, and otherwise it is that provider name. *)
Theorem provider_falls_back_to_host URL_host doc context :
  (forall entry, In entry (rules (provider URL_host)) ->
                 querySelectorAll doc (fst entry) = []) ->
  buildRuleSet (provider URL_host) doc context
  = match URL_host (url context) with
    | None => Threw
    | Some host =>
        if JsString.truthy (getProvider host)
        then Returned (VStr (JsString.trim (getProvider host)))
        else Undefined
    end
  /\ (forall host, URL_host (url context) = Some host ->
                   hasChar "." host = false ->
                   buildRuleSet (provider URL_host) doc context = Undefined).
Proof.
  intros H.
  assert (E : selectBest (provider URL_host) doc = initialBest).
  { rewrite selectBest_fold. unfold bestAfter, candidates.
    rewrite candidates_none; [reflexivity|].
    intros j q h _ Hj. exact (H (q, h) (nth_error_In _ _ Hj)). }
  assert (F : buildRuleSet (provider URL_host) doc context
              = match URL_host (url context) with
                | None => Threw
                | Some host =>
                    if JsString.truthy (getProvider host)
                    then Returned (VStr (JsString.trim (getProvider host)))
                    else Undefined
                end).
  { unfold buildRuleSet, withDefault. rewrite E.
    cbn [maxValue initialBest truthyValue provider defaultValue].
    unfold providerDefault, parseUrl.
    destruct (URL_host (url context)) as [host|]; [|reflexivity].
    unfold finish. cbn [provider processors].
    now destruct (JsString.truthy (getProvider host)). }
  split; [exact F|].
  intros host Hhost Hdot. rewrite F, Hhost.
  unfold getProvider.
  rewrite (JsStringFacts.replaceWww_without_dot host Hdot).
  rewrite (JsStringFacts.replaceFirst_absent "." "co." "." host Hdot).
  now rewrite (JsStringFacts.split_absent "." host Hdot).
Qed.

Lemma provider_falls_back_to_host_example :
  buildRuleSet (provider (fun _ => Some "localhost")) Sample.page Sample.here
  = Undefined.
Proof.
  destruct (provider_falls_back_to_host (fun _ => Some "localhost") Sample.page
              Sample.here) as [_ H].
  - simpl; intros entry [<-|[]]; reflexivity.
  - apply (H "localhost"); reflexivity.
Defined.
